(** * webwire-go client: connection establishment and the reader goroutine

    A shallow embedding of [Client.connect] from
    [vendor/github.com/qbeon/webwire-go/client/connect.go] together with the
    reader goroutine it starts, and of the request tracker and message
    dispatch the client is specified with.  Mutable client fields are
    threaded through a small state-and-trace monad; every externally
    visible action (lock operations, dialing, log lines, hook calls,
    spawned goroutines) is recorded as an [Event]. *)

From Stdlib Require Import String Ascii List Bool Arith ZArith Lia.
From stdpp Require Import base decidable option list gmap strings.
Import ListNotations.

Local Open Scope string_scope.
Local Open Scope list_scope.

(** ** Data model *)

(** Modelled from the spec: the declaration of the status constants
    ([StatDisabled], [StatDisconnected], [StatConnected]) is not part of
    connect.go; section 3 of the specification gives the connection state
    as the enum {Disabled, Disconnected, Connecting, Connected}.  The source
    only ever compares a loaded status for equality with a constant. *)
Inductive Status : Type :=
| StatDisabled
| StatDisconnected
| StatConnecting
| StatConnected.

#[global] Instance Status_eq_dec : EqDecision Status.
Proof. solve_decision. Defined.

(** Go's [error] interface value, observed through its message. *)
Definition error : Type := string.

(** Modelled from the spec: the [Session] struct is declared outside
    connect.go; the source reads its [Key] field, the specification adds
    opaque metadata. *)
Record Session : Type := mkSession {
  Key : string;
  Info : list Byte.byte
}.

(** Modelled from the spec: the payload of a request or reply; the test
    builds it as [webwire.Payload{Data: []byte(...)}]. *)
Record Payload : Type := mkPayload {
  Data : list Byte.byte
}.

(** Modelled from the spec: the tagged union of incoming frames
    (section 3, Message). *)
Inductive Message : Type :=
| Reply (id : nat) (payload : Payload)
| Notification (payload : Payload)
| SessionClosedSignal
| ErrorSignal.

(** The error returned by [clt.conn.Read()]; the reader asks it
    [IsAbnormalCloseErr()] and prints it. *)
Record SockReadErr : Type := mkSockReadErr {
  IsAbnormalCloseErr : bool;
  ErrorText : string
}.

(** Completion of a pending request (section 4.2 and the taxonomy of
    section 7). *)
Inductive RequestError : Type :=
| Timeout
| RequestFailed (msg : string).

Definition Outcome : Type := (Payload + RequestError)%type.

(** Modelled from the spec: the request tracker of section 4.2.  [pending]
    maps the identifier of every outstanding request to its deadline;
    [results] is the result future of each request, written at completion. *)
Record Tracker : Type := mkTracker {
  nextId : nat;
  pending : gmap nat nat;
  results : gmap nat Outcome
}.

(** The fields of [Client] that connect.go reads or writes, plus the
    request tracker.  [conn], the loggers and the hooks are collaborators
    and appear as events. *)
Record Client : Type := mkClient {
  status : Status;
  session : option Session;
  autoconnect : bool;
  serverAddr : string;
  tracker : Tracker
}.

Inductive LockName : Type := connectLock | sessionLock.
Inductive LockOp : Type := OpLock | OpUnlock | OpRLock | OpRUnlock.

(** Observable actions, in program order. *)
Inductive Event : Type :=
| EvLock (l : LockName) (op : LockOp)
| EvVerifyProtocolVersion
| EvDial (addr : string)
| EvGoReader
| EvStoreStatus (s : Status)
| EvRequestSessionRestoration (key : list Byte.byte)
| EvWarningLog (msg : string)
| EvErrorLog (msg : string)
| EvOnDisconnected
| EvOnSessionClosed
| EvOnNotification (payload : Payload)
| EvGoReconnect
| EvTryAutoconnect (retries : Z)
| EvClose
| EvWrite (id : nat) (name : string) (payload : Payload).

(** Outcomes of the calls connect.go makes into code that lives elsewhere.
    [None] is Go's [nil] error. *)
Record Env : Type := mkEnv {
  verifyProtocolVersion : option error;
  Dial : string -> option error;
  requestSessionRestoration : list Byte.byte -> option Session * option error;
  tryAutoconnect : Z -> option error
}.

(** ** The state-and-trace monad *)

Definition M (A : Type) : Type := Client -> A * Client * list Event.

Definition ret {A} (a : A) : M A := fun c => (a, c, []).

Definition bind {A B} (m : M A) (k : A -> M B) : M B :=
  fun c =>
    let '(a, c1, t1) := m c in
    let '(b, c2, t2) := k a c1 in
    (b, c2, t1 ++ t2).

Declare Scope go_scope.
Delimit Scope go_scope with go.
Notation "x <- m ;; k" := (bind m (fun x => k))
  (at level 100, m at next level, right associativity) : go_scope.
Notation "m ;; k" := (bind m (fun _ => k))
  (at level 100, right associativity) : go_scope.
Local Open Scope go_scope.

Definition emit (e : Event) : M unit := fun c => (tt, c, [e]).

Definition get : M Client := fun c => (c, c, []).

Definition when (b : bool) (m : M unit) : M unit :=
  if b then m else ret tt.

Definition value {A} (r : A * Client * list Event) : A := fst (fst r).
Definition final {A} (r : A * Client * list Event) : Client := snd (fst r).
Definition trace {A} (r : A * Client * list Event) : list Event := snd r.

(** [atomic.LoadInt32(&clt.status)] *)
Definition loadStatus : M Status := fun c => (status c, c, []).

(** [atomic.StoreInt32(&clt.status, s)] *)
Definition storeStatus (s : Status) : M unit :=
  fun c =>
    (tt,
     mkClient s (session c) (autoconnect c) (serverAddr c) (tracker c),
     [EvStoreStatus s]).

(** [clt.session = s], under [sessionLock]. *)
Definition setSession (s : option Session) : M unit :=
  fun c =>
    (tt,
     mkClient (status c) s (autoconnect c) (serverAddr c) (tracker c),
     []).

Definition setTracker (t : Tracker) : M unit :=
  fun c =>
    (tt,
     mkClient (status c) (session c) (autoconnect c) (serverAddr c) t,
     []).

(** [snapshot()] of the session store. *)
Definition snapshot (c : Client) : option Session := session c.

Definition count (p : Event -> bool) (t : list Event) : nat :=
  length (List.filter p t).

Definition isOnDisconnected (e : Event) : bool :=
  match e with EvOnDisconnected => true | _ => false end.
Definition isOnSessionClosed (e : Event) : bool :=
  match e with EvOnSessionClosed => true | _ => false end.
Definition isStoreStatus (e : Event) : bool :=
  match e with EvStoreStatus _ => true | _ => false end.
Definition isTryAutoconnect (e : Event) : bool :=
  match e with EvTryAutoconnect _ => true | _ => false end.
Definition isRestoration (e : Event) : bool :=
  match e with EvRequestSessionRestoration _ => true | _ => false end.
Definition isVerify (e : Event) : bool :=
  match e with EvVerifyProtocolVersion => true | _ => false end.
Definition isDial (e : Event) : bool :=
  match e with EvDial _ => true | _ => false end.
Definition isGoReader (e : Event) : bool :=
  match e with EvGoReader => true | _ => false end.
Definition isGoReconnect (e : Event) : bool :=
  match e with EvGoReconnect => true | _ => false end.

(** [[]byte(s)] *)
Definition bytes (s : string) : list Byte.byte := list_byte_of_string s.

(** ** connect.go *)

Section Connect.

Variable env : Env.

(** The body of [connect] between taking [connectLock] and the deferred
    unlock. *)
Definition connectLocked : M (option error) :=
  st <- loadStatus ;;
  if decide (st = StatConnected) then ret None
  else
    emit EvVerifyProtocolVersion ;;
    match verifyProtocolVersion env with
    | Some err => ret (Some err)
    | None =>
      c <- get ;;
      emit (EvDial (serverAddr c)) ;;
      match Dial env (serverAddr c) with
      | Some err => ret (Some err)
      | None =>
        (* Setup reader thread *)
        emit EvGoReader ;;
        storeStatus StatConnected ;;
        (* Read the current sessions key if there is any *)
        emit (EvLock sessionLock OpRLock) ;;
        c <- get ;;
        match session c with
        | None =>
          emit (EvLock sessionLock OpRUnlock) ;;
          ret None
        | Some sess =>
          let sessionKey := Key sess in
          emit (EvLock sessionLock OpRUnlock) ;;
          (* Try to restore session if necessary *)
          let key := bytes sessionKey in
          emit (EvRequestSessionRestoration key) ;;
          let '(restoredSession, err) := requestSessionRestoration env key in
          match err with
          | Some e =>
            emit (EvWarningLog
                    ("Couldn't restore session on reconnection: " +:+ e)) ;;
            (* Reset the session *)
            emit (EvLock sessionLock OpLock) ;;
            setSession None ;;
            emit (EvLock sessionLock OpUnlock) ;;
            ret None
          | None =>
            emit (EvLock sessionLock OpLock) ;;
            setSession restoredSession ;;
            emit (EvLock sessionLock OpUnlock) ;;
            ret None
          end
        end
      end
    end.

Definition connect : M (option error) :=
  emit (EvLock connectLock OpLock) ;;
  r <- connectLocked ;;
  emit (EvLock connectLock OpUnlock) ;;
  ret r.

End Connect.

(** ** The reader goroutine of connect.go *)

Inductive ReaderState : Type :=
| Reading    (* blocked in, or about to call, [clt.conn.Read()] *)
| Returned.  (* the goroutine has returned *)

Section Reader.

Variable env : Env.

(** [clt.handleMessage] is defined outside connect.go. *)
Variable handleMessage : Message -> M (option error).

(** The [if err != nil] branch of the loop, up to its [return]. *)
Definition onReadError (err : SockReadErr) : M unit :=
  when (IsAbnormalCloseErr err)
       (emit (EvErrorLog ("Abnormal closure error:" +:+ ErrorText err))) ;;
  (* Set status to disconnected if it wasn't disabled *)
  st <- loadStatus ;;
  when (bool_decide (st = StatConnected)) (storeStatus StatDisconnected) ;;
  (* Call hook *)
  emit EvOnDisconnected ;;
  (* reconnect in another goroutine *)
  emit EvGoReconnect.

(** One iteration of the [for] loop on the outcome of [clt.conn.Read()]. *)
Definition readerStep (r : Message + SockReadErr) : M ReaderState :=
  match r with
  | inr err => onReadError err ;; ret Returned
  | inl message =>
    (* Try to handle the message *)
    e <- handleMessage message ;;
    match e with
    | Some err =>
      emit (EvWarningLog ("Failed handling message:" +:+ err)) ;;
      ret Reading
    | None => ret Reading
    end
  end.

(** The loop over the successive outcomes of [clt.conn.Read()].  When the
    outcomes run out the goroutine is blocked in [Read]; on return the
    deferred [clt.close()] runs. *)
Fixpoint reader (reads : list (Message + SockReadErr)) : M ReaderState :=
  match reads with
  | [] => ret Reading
  | r :: rest =>
    s <- readerStep r ;;
    match s with
    | Returned => emit EvClose ;; ret Returned
    | Reading => reader rest
    end
  end.

(** The goroutine spawned by the error branch. *)
Definition reconnectTask : M unit :=
  c <- get ;;
  if autoconnect c && negb (bool_decide (status c = StatDisabled)) then
    emit (EvTryAutoconnect 0) ;;
    match tryAutoconnect env 0 with
    | Some err =>
      emit (EvErrorLog
              ("Auto-reconnect failed after connection loss: " +:+ err))
    | None => ret tt
    end
  else ret tt.

(** The reader followed by the task it spawned, when nothing else touches
    the client in between. *)
Definition readerThenReconnect (reads : list (Message + SockReadErr))
  : M ReaderState :=
  s <- reader reads ;;
  match s with
  | Returned => reconnectTask ;; ret Returned
  | Reading => ret Reading
  end.

End Reader.

(** ** Request tracker and message dispatch *)

(** Modelled from the spec: [send] of section 4.2, whose code is not in
    connect.go.  Allocates a fresh identifier and registers the pending
    entry with its deadline. *)
Definition send (deadline : nat) (t : Tracker) : nat * Tracker :=
  let id := nextId t in
  (id, mkTracker (S id) (<[id := deadline]> (pending t)) (results t)).

(** Modelled from the spec: [complete] of section 4.2.  Looks up and removes
    the pending entry and delivers the result; a no-op when the entry is
    absent. *)
Definition complete (id : nat) (o : Outcome) (t : Tracker) : Tracker :=
  match pending t !! id with
  | Some _ => mkTracker (nextId t) (delete id (pending t))
                        (<[id := o]> (results t))
  | None => t
  end.

(** Modelled from the spec: the per-request timers of section 4.2 at clock
    value [now].  Every entry whose deadline has elapsed is removed and
    completed with [Timeout]. *)
Definition expire (now : nat) (t : Tracker) : Tracker :=
  let due : gmap nat nat := filter (fun kd => snd kd <= now) (pending t) in
  mkTracker (nextId t)
            (filter (fun kd => now < snd kd) (pending t))
            (((fun _ => inr Timeout) <$> due) ∪ results t).

(** Modelled from the spec: [request(name, payload)] of section 6 up to the
    point where the caller is suspended.  Returns the identifier on which
    the caller waits. *)
Definition request (name : string) (payload : Payload) (now timeout : nat)
  : M nat :=
  c <- get ;;
  let '(id, t) := send (now + timeout) (tracker c) in
  setTracker t ;;
  emit (EvWrite id name payload) ;;
  ret id.

(** What the suspended caller of request [id] is resumed with, if it has
    been completed. *)
Definition requestResult (id : nat) (c : Client) : option Outcome :=
  results (tracker c) !! id.

(** Modelled from the spec: the dispatch step of section 4.1, whose code
    ([clt.handleMessage]) is not in connect.go.  Replies go to the request
    tracker, session-closed signals clear the session store and invoke the
    hook, notifications go to the user callback.  The specification names
    no route for an error signal. *)
Definition handleMessageSpec (m : Message) : M (option error) :=
  match m with
  | Reply id payload =>
    c <- get ;;
    setTracker (complete id (inl payload) (tracker c)) ;;
    ret None
  | Notification payload => emit (EvOnNotification payload) ;; ret None
  | SessionClosedSignal =>
    setSession None ;; emit EvOnSessionClosed ;; ret None
  | ErrorSignal => ret None
  end.

(** Modelled from the spec: one interleaving of the tasks of section 5, the
    reader's iterations and the clock that drives the request timers. *)
Inductive SysEvent : Type :=
| SysRead (r : Message + SockReadErr)
| SysClock (now : nat).

Fixpoint run (evs : list SysEvent) (s : ReaderState) : M ReaderState :=
  match evs with
  | [] => ret s
  | SysClock now :: rest =>
    c <- get ;;
    setTracker (expire now (tracker c)) ;;
    run rest s
  | SysRead r :: rest =>
    match s with
    | Returned => run rest Returned
    | Reading =>
      s' <- readerStep handleMessageSpec r ;;
      match s' with
      | Returned => emit EvClose ;; run rest Returned
      | Reading => run rest Reading
      end
    end
  end.

(** A system event after which the reader is still reading and request
    [id], registered with deadline [d], is still pending. *)
Definition quiet (id d : nat) (ev : SysEvent) : bool :=
  match ev with
  | SysClock now => Nat.ltb now d
  | SysRead (inl (Reply id' _)) => negb (Nat.eqb id' id)
  | SysRead (inl _) => true
  | SysRead (inr _) => false
  end.

Definition isSessionClosed (m : Message) : bool :=
  match m with SessionClosedSignal => true | _ => false end.

(** [precededBy p q seen t]: every event of [t] that satisfies [q] comes
    after an event that satisfies [p] ([seen] records that one was met). *)
Fixpoint precededBy (p q : Event -> bool) (seen : bool) (t : list Event)
  : bool :=
  match t with
  | [] => true
  | e :: t' => (negb (q e) || seen) && precededBy p q (seen || p e) t'
  end.

(** What the client looks like after the error branch of the reader. *)
Definition afterReadError (c : Client) : Client :=
  if bool_decide (status c = StatConnected)
  then mkClient StatDisconnected (session c) (autoconnect c) (serverAddr c)
                (tracker c)
  else c.

(** The trace of the error branch, including the deferred [clt.close()]. *)
Definition readErrorTrace (c : Client) (err : SockReadErr) : list Event :=
  (if IsAbnormalCloseErr err
   then [EvErrorLog ("Abnormal closure error:" +:+ ErrorText err)]
   else []) ++
  (if bool_decide (status c = StatConnected)
   then [EvStoreStatus StatDisconnected]
   else []) ++
  [EvOnDisconnected; EvGoReconnect; EvClose].

(** ** Concrete clients and environments *)

Definition emptyTracker : Tracker := mkTracker 0 ∅ ∅.

Definition freshClient : Client :=
  mkClient StatDisconnected None true "ws://localhost:8080" emptyTracker.

Definition aSession : Session := mkSession "SESSIONKEY" [].

Definition clientWithSession : Client :=
  mkClient StatDisconnected (Some aSession) true "ws://localhost:8080"
           emptyTracker.

Definition clientIn (st : Status) : Client :=
  mkClient st (Some aSession) true "ws://localhost:8080" emptyTracker.

(** Every collaborator succeeds. *)
Definition envOk : Env :=
  mkEnv None (fun _ => None) (fun _ => (Some aSession, None)) (fun _ => None).

(** The server rejects the restoration key. *)
Definition envNoRestore : Env :=
  mkEnv None (fun _ => None)
        (fun _ => (None, Some "session not found")) (fun _ => None).

Definition envBadProtocol : Env :=
  mkEnv (Some "incompatible protocol") (fun _ => None)
        (fun _ => (Some aSession, None)) (fun _ => None).

Definition envDialFails : Env :=
  mkEnv None (fun _ => Some "connection refused")
        (fun _ => (Some aSession, None)) (fun _ => None).

(** [webwire.Payload{Data: []byte("credentials")}] *)
Definition credentials : Payload := mkPayload (bytes "credentials").

Definition emptyPayload : Payload := mkPayload [].

Definition abnormalClosure : SockReadErr :=
  mkSockReadErr true "unexpected EOF".

Definition normalClosure : SockReadErr :=
  mkSockReadErr false "closed".

(** ** Checkers over traces *)

Definition isErrorLog (e : Event) : bool :=
  match e with EvErrorLog _ => true | _ => false end.
Definition isClose (e : Event) : bool :=
  match e with EvClose => true | _ => false end.

(** Whether an outcome of [clt.conn.Read()] is an error. *)
Definition isReadError (r : Message + SockReadErr) : bool :=
  match r with inr _ => true | inl _ => false end.

(** The state of [sessionLock], a [sync.RWMutex] used by one goroutine. *)
Inductive RWState : Type := Free | ReadHeld | WriteHeld.

(** Which of the two locks of connect.go the running goroutine holds. *)
Record Locks : Type := mkLocks {
  connectHeld : bool;
  sessionState : RWState
}.

Definition noLocks : Locks := mkLocks false Free.

(** One event against the lock state.  [None] is a misuse: locking a mutex
    that is already held, releasing one that is not, acting outside the
    critical section of [connectLock], or calling into the network
    (protocol verification, dialing, session restoration) while
    [sessionLock] is held. *)
Definition lockStep (l : Locks) (e : Event) : option Locks :=
  match e with
  | EvLock connectLock OpLock =>
    if connectHeld l then None else Some (mkLocks true (sessionState l))
  | EvLock connectLock OpUnlock =>
    match connectHeld l, sessionState l with
    | true, Free => Some (mkLocks false Free)
    | _, _ => None
    end
  | EvLock connectLock _ => None
  | EvLock sessionLock op =>
    if connectHeld l then
      match op, sessionState l with
      | OpRLock, Free => Some (mkLocks true ReadHeld)
      | OpRUnlock, ReadHeld => Some (mkLocks true Free)
      | OpLock, Free => Some (mkLocks true WriteHeld)
      | OpUnlock, WriteHeld => Some (mkLocks true Free)
      | _, _ => None
      end
    else None
  | EvVerifyProtocolVersion | EvDial _ | EvRequestSessionRestoration _ =>
    match connectHeld l, sessionState l with
    | true, Free => Some l
    | _, _ => None
    end
  | _ => if connectHeld l then Some l else None
  end.

Fixpoint checkLocks (l : Locks) (t : list Event) : option Locks :=
  match t with
  | [] => Some l
  | e :: t' =>
    match lockStep l e with
    | Some l' => checkLocks l' t'
    | None => None
    end
  end.

(** The status constants that connect.go names, compares with and stores.
    The remaining value of the specification's enum, Connecting, occurs
    nowhere in the source. *)
Definition isSourceStatus (s : Status) : bool :=
  match s with
  | StatDisabled | StatDisconnected | StatConnected => true
  | StatConnecting => false
  end.

(** Taking [sessionLock] for writing. *)
Definition isSessionWriteLock (e : Event) : bool :=
  match e with EvLock sessionLock OpLock => true | _ => false end.

(** The actions of the reader's error branch other than logging. *)
Definition isErrorBranchStep (e : Event) : bool :=
  isStoreStatus e || isOnDisconnected e || isGoReconnect e || isClose e.

(** Lines 69-95 of [connect]: reading the key of the stored session, the
    restoration request and the write of its outcome. *)
Definition restoreSession (env : Env) : M (option error) :=
  emit (EvLock sessionLock OpRLock) ;;
  c <- get ;;
  match session c with
  | None =>
    emit (EvLock sessionLock OpRUnlock) ;;
    ret None
  | Some sess =>
    let sessionKey := Key sess in
    emit (EvLock sessionLock OpRUnlock) ;;
    let key := bytes sessionKey in
    emit (EvRequestSessionRestoration key) ;;
    let '(restoredSession, err) := requestSessionRestoration env key in
    match err with
    | Some e =>
      emit (EvWarningLog
              ("Couldn't restore session on reconnection: " +:+ e)) ;;
      emit (EvLock sessionLock OpLock) ;;
      setSession None ;;
      emit (EvLock sessionLock OpUnlock) ;;
      ret None
    | None =>
      emit (EvLock sessionLock OpLock) ;;
      setSession restoredSession ;;
      emit (EvLock sessionLock OpUnlock) ;;
      ret None
    end
  end.

(** [connect] together with the reader goroutine it starts at line 30,
    under the schedules in which the reader consumes the reads [early]
    between its start and the store of line 67 and the reads [late] between
    that store and line 70, each batch without interruption and nothing
    else touching the client.  With no reads the reader stays blocked in
    [Read] while [connect] runs.  The result pairs what [connect] returns
    with the state of the reader, if one was started. *)
Definition connectRacing (env : Env)
    (handleMessage : Message -> M (option error))
    (early late : list (Message + SockReadErr))
  : M (option error * option ReaderState) :=
  emit (EvLock connectLock OpLock) ;;
  r <- (st <- loadStatus ;;
        if decide (st = StatConnected) then ret (None, None)
        else
          emit EvVerifyProtocolVersion ;;
          match verifyProtocolVersion env with
          | Some err => ret (Some err, None)
          | None =>
            c <- get ;;
            emit (EvDial (serverAddr c)) ;;
            match Dial env (serverAddr c) with
            | Some err => ret (Some err, None)
            | None =>
              emit EvGoReader ;;
              s1 <- reader handleMessage early ;;
              storeStatus StatConnected ;;
              s2 <- match s1 with
                    | Reading => reader handleMessage late
                    | Returned => ret Returned
                    end ;;
              r <- restoreSession env ;;
              ret (r, Some s2)
            end
          end) ;;
  emit (EvLock connectLock OpUnlock) ;;
  ret r.




(** Reconnecting fails. *)
Definition envNoReconnect : Env :=
  mkEnv None (fun _ => None) (fun _ => (Some aSession, None))
        (fun _ => Some "server unreachable").

(** A handler that fails on notifications. *)
Definition handleMessagePicky (m : Message) : M (option error) :=
  match m with
  | Notification _ => ret (Some "unexpected notification")
  | _ => handleMessageSpec m
  end.

(** * Properties of connect *)

Ltac run_go :=
  unfold connect, connectLocked, value, final, trace, bind, loadStatus, get,
    emit, ret, storeStatus, setSession, when in *;
  cbn [fst snd status session autoconnect serverAddr tracker] in *.

(** C1: when protocol verification and dialing succeed but the session
    restoration request fails, connect returns nil, logs the failure as a
    warning and resets the stored session to none. *)
Theorem connect_restoration_failure_not_fatal
    (env : Env) (c : Client) (sess : Session)
    (restored : option Session) (e : error) :
  status c <> StatConnected ->
  verifyProtocolVersion env = None ->
  Dial env (serverAddr c) = None ->
  session c = Some sess ->
  requestSessionRestoration env (bytes (Key sess)) = (restored, Some e) ->
  value (connect env c) = None /\
  In (EvWarningLog ("Couldn't restore session on reconnection: " +:+ e))
     (trace (connect env c)) /\
  session (final (connect env c)) = None /\
  status (final (connect env c)) = StatConnected.
Proof.
  intros Hst Hver Hdial Hsess Hres.
  run_go.
  destruct (decide (status c = StatConnected)) as [Heq | _]; [contradiction |].
  rewrite Hver, Hdial, Hsess. cbn.
  rewrite Hres. cbn.
  repeat split; auto 10.
Qed.

Lemma connect_restoration_failure_not_fatal_witness :
  value (connect envNoRestore clientWithSession) = None /\
  In (EvWarningLog
        ("Couldn't restore session on reconnection: " +:+ "session not found"))
     (trace (connect envNoRestore clientWithSession)) /\
  session (final (connect envNoRestore clientWithSession)) = None /\
  status (final (connect envNoRestore clientWithSession)) = StatConnected.
Proof.
  apply (connect_restoration_failure_not_fatal
           envNoRestore clientWithSession aSession None "session not found");
    [discriminate | reflexivity | reflexivity | reflexivity | reflexivity].
Defined.

(** The three ways through [connect], as equations. *)

Lemma connect_connected (env : Env) (c : Client) :
  status c = StatConnected ->
  connect env c =
  (None, c, [EvLock connectLock OpLock; EvLock connectLock OpUnlock]).
Proof.
  intros Hst. run_go.
  destruct (decide (status c = StatConnected)); [reflexivity | contradiction].
Qed.

Lemma connect_bad_protocol (env : Env) (c : Client) (e : error) :
  status c <> StatConnected ->
  verifyProtocolVersion env = Some e ->
  connect env c =
  (Some e, c,
   [EvLock connectLock OpLock; EvVerifyProtocolVersion;
    EvLock connectLock OpUnlock]).
Proof.
  intros Hst Hver. run_go.
  destruct (decide (status c = StatConnected)); [contradiction |].
  rewrite Hver. reflexivity.
Qed.

Lemma connect_dial_error (env : Env) (c : Client) (e : error) :
  status c <> StatConnected ->
  verifyProtocolVersion env = None ->
  Dial env (serverAddr c) = Some e ->
  connect env c =
  (Some e, c,
   [EvLock connectLock OpLock; EvVerifyProtocolVersion;
    EvDial (serverAddr c); EvLock connectLock OpUnlock]).
Proof.
  intros Hst Hver Hdial. run_go.
  destruct (decide (status c = StatConnected)); [contradiction |].
  rewrite Hver, Hdial. reflexivity.
Qed.

Lemma connect_no_session (env : Env) (c : Client) :
  status c <> StatConnected ->
  verifyProtocolVersion env = None ->
  Dial env (serverAddr c) = None ->
  session c = None ->
  connect env c =
  (None,
   mkClient StatConnected None (autoconnect c) (serverAddr c) (tracker c),
   [EvLock connectLock OpLock; EvVerifyProtocolVersion;
    EvDial (serverAddr c); EvGoReader; EvStoreStatus StatConnected;
    EvLock sessionLock OpRLock; EvLock sessionLock OpRUnlock;
    EvLock connectLock OpUnlock]).
Proof.
  intros Hst Hver Hdial Hsess. run_go.
  destruct (decide (status c = StatConnected)); [contradiction |].
  rewrite Hver, Hdial, Hsess. reflexivity.
Qed.

Lemma connect_with_session (env : Env) (c : Client) (sess : Session) :
  status c <> StatConnected ->
  verifyProtocolVersion env = None ->
  Dial env (serverAddr c) = None ->
  session c = Some sess ->
  connect env c =
  (None,
   mkClient StatConnected
     (match snd (requestSessionRestoration env (bytes (Key sess))) with
      | Some _ => None
      | None => fst (requestSessionRestoration env (bytes (Key sess)))
      end)
     (autoconnect c) (serverAddr c) (tracker c),
   [EvLock connectLock OpLock; EvVerifyProtocolVersion;
    EvDial (serverAddr c); EvGoReader; EvStoreStatus StatConnected;
    EvLock sessionLock OpRLock; EvLock sessionLock OpRUnlock;
    EvRequestSessionRestoration (bytes (Key sess))] ++
   match snd (requestSessionRestoration env (bytes (Key sess))) with
   | Some e =>
     [EvWarningLog ("Couldn't restore session on reconnection: " +:+ e)]
   | None => []
   end ++
   [EvLock sessionLock OpLock; EvLock sessionLock OpUnlock;
    EvLock connectLock OpUnlock]).
Proof.
  intros Hst Hver Hdial Hsess. run_go.
  destruct (decide (status c = StatConnected)); [contradiction |].
  rewrite Hver, Hdial, Hsess. cbn.
  destruct (requestSessionRestoration env (bytes (Key sess))) as [r [e |]];
    reflexivity.
Qed.

Lemma precededBy_split (p q : Event -> bool) (t : list Event) :
  forall (seen : bool) (pre post : list Event) (e : Event),
    precededBy p q seen t = true ->
    t = pre ++ e :: post ->
    q e = true ->
    seen = true \/ exists e', In e' pre /\ p e' = true.
Proof.
  induction t as [| x t IH]; intros seen pre post e Hpb Heq Hq.
  - destruct pre; discriminate.
  - cbn in Hpb. apply andb_prop in Hpb as [Hhead Htail].
    destruct pre as [| y pre]; cbn in Heq; injection Heq as -> ->.
    + rewrite Hq in Hhead. cbn in Hhead. left. exact Hhead.
    + destruct (IH _ _ _ _ Htail eq_refl Hq) as [Hseen | [e' [Hin Hp]]].
      * apply orb_prop in Hseen as [Hs | Hy]; [left; exact Hs |].
        right. exists y. split; [left; reflexivity | exact Hy].
      * right. exists e'. split; [right; exact Hin | exact Hp].
Qed.

Lemma connect_verifies_first (env : Env) (c : Client) :
  precededBy isVerify isDial false (trace (connect env c)) = true.
Proof.
  destruct (decide (status c = StatConnected)) as [Hst | Hst].
  { rewrite connect_connected by assumption. reflexivity. }
  destruct (verifyProtocolVersion env) as [e |] eqn:Hver.
  { rewrite (connect_bad_protocol env c e) by assumption. reflexivity. }
  destruct (Dial env (serverAddr c)) as [e |] eqn:Hdial.
  { rewrite (connect_dial_error env c e) by assumption. reflexivity. }
  destruct (session c) as [sess |] eqn:Hsess.
  - rewrite (connect_with_session env c sess) by assumption.
    destruct (snd (requestSessionRestoration env (bytes (Key sess))));
      reflexivity.
  - rewrite connect_no_session by assumption. reflexivity.
Qed.

(** C3: connect verifies the protocol before it dials, and a protocol
    mismatch or a dial failure is returned to the caller as is, with the
    status left as it was and so not Connected. *)
Theorem connect_failure_returned_synchronously (env : Env) (c : Client) :
  status c <> StatConnected ->
  (forall pre post addr,
      trace (connect env c) = pre ++ EvDial addr :: post ->
      In EvVerifyProtocolVersion pre) /\
  (forall e,
      verifyProtocolVersion env = Some e ->
      value (connect env c) = Some e /\
      count isDial (trace (connect env c)) = 0 /\
      count isStoreStatus (trace (connect env c)) = 0 /\
      status (final (connect env c)) = status c /\
      status (final (connect env c)) <> StatConnected) /\
  (forall e,
      verifyProtocolVersion env = None ->
      Dial env (serverAddr c) = Some e ->
      value (connect env c) = Some e /\
      count isStoreStatus (trace (connect env c)) = 0 /\
      status (final (connect env c)) = status c /\
      status (final (connect env c)) <> StatConnected).
Proof.
  intros Hst. split; [| split].
  - intros pre post addr Heq.
    destruct (precededBy_split isVerify isDial _ false pre post (EvDial addr)
                (connect_verifies_first env c) Heq eq_refl)
      as [Hf | [e' [Hin Hp]]]; [discriminate |].
    destruct e'; try discriminate. exact Hin.
  - intros e Hver. rewrite (connect_bad_protocol env c e) by assumption.
    cbn. auto.
  - intros e Hver Hdial.
    rewrite (connect_dial_error env c e) by assumption. cbn. auto.
Qed.

Lemma connect_failure_returned_synchronously_witness :
  value (connect envBadProtocol freshClient) = Some "incompatible protocol" /\
  status (final (connect envBadProtocol freshClient)) = StatDisconnected /\
  value (connect envDialFails freshClient) = Some "connection refused" /\
  status (final (connect envDialFails freshClient)) = StatDisconnected.
Proof.
  pose proof (connect_failure_returned_synchronously envBadProtocol freshClient
                ltac:(discriminate)) as [_ [Hbad _]].
  pose proof (connect_failure_returned_synchronously envDialFails freshClient
                ltac:(discriminate)) as [_ [_ Hdial]].
  destruct (Hbad "incompatible protocol" eq_refl) as (Hv1 & _ & _ & Hs1 & _).
  destruct (Hdial "connection refused" eq_refl eq_refl) as (Hv2 & _ & Hs2 & _).
  repeat split; assumption.
Defined.

(** C5: on a client whose status is Connected, connect returns nil at once:
    it only takes and releases [connectLock], and neither verifies the
    protocol, nor dials, nor starts a reader, nor changes the client. *)
Theorem connect_idempotent_when_connected (env : Env) (c : Client) :
  status c = StatConnected ->
  value (connect env c) = None /\
  final (connect env c) = c /\
  trace (connect env c) =
    [EvLock connectLock OpLock; EvLock connectLock OpUnlock] /\
  count isVerify (trace (connect env c)) = 0 /\
  count isDial (trace (connect env c)) = 0 /\
  count isGoReader (trace (connect env c)) = 0.
Proof.
  intros Hst. rewrite connect_connected by assumption. cbn. auto 10.
Qed.

Lemma connect_idempotent_when_connected_witness :
  value (connect envDialFails (clientIn StatConnected)) = None /\
  final (connect envDialFails (clientIn StatConnected)) = clientIn StatConnected.
Proof.
  destruct (connect_idempotent_when_connected envDialFails
              (clientIn StatConnected) eq_refl) as (Hv & Hf & _).
  split; assumption.
Defined.

(** C6: a successful connect issues a session restoration request exactly
    when a session is stored; with no stored session it sets the status to
    Connected and returns nil without any restoration request. *)
Theorem connect_restores_iff_session (env : Env) (c : Client) :
  status c <> StatConnected ->
  verifyProtocolVersion env = None ->
  Dial env (serverAddr c) = None ->
  (forall sess, session c = Some sess ->
     List.filter isRestoration (trace (connect env c)) =
       [EvRequestSessionRestoration (bytes (Key sess))]) /\
  (session c = None ->
     value (connect env c) = None /\
     status (final (connect env c)) = StatConnected /\
     session (final (connect env c)) = None /\
     count isRestoration (trace (connect env c)) = 0) /\
  (0 < count isRestoration (trace (connect env c)) <-> session c <> None).
Proof.
  intros Hst Hver Hdial.
  destruct (session c) as [sess |] eqn:Hsess.
  - rewrite (connect_with_session env c sess) by assumption.
    unfold count, trace. cbn [snd].
    destruct (snd (requestSessionRestoration env (bytes (Key sess))));
      cbn; repeat split; try congruence; try lia.
    all: intros s0 [= <-]; reflexivity.
  - rewrite connect_no_session by assumption. cbn.
    repeat split; try congruence; try lia; try discriminate.
Qed.

Lemma connect_restores_iff_session_witness :
  count isRestoration (trace (connect envOk freshClient)) = 0 /\
  status (final (connect envOk freshClient)) = StatConnected /\
  List.filter isRestoration (trace (connect envOk clientWithSession)) =
    [EvRequestSessionRestoration (bytes "SESSIONKEY")].
Proof.
  destruct (connect_restores_iff_session envOk freshClient
              ltac:(discriminate) eq_refl eq_refl) as (_ & Hnone & _).
  destruct (Hnone eq_refl) as (_ & Hs & _ & Hc).
  destruct (connect_restores_iff_session envOk clientWithSession
              ltac:(discriminate) eq_refl eq_refl) as (Hsome & _ & _).
  split; [exact Hc | split; [exact Hs | exact (Hsome aSession eq_refl)]].
Defined.

(** C9: whenever connect returns an error, the client is exactly as it was
    before the call (status, session and every other field), and no status
    store and no reader start appear in the trace. *)
Theorem connect_failure_leaves_client_unchanged
    (env : Env) (c : Client) (e : error) :
  value (connect env c) = Some e ->
  final (connect env c) = c /\
  status (final (connect env c)) = status c /\
  session (final (connect env c)) = session c /\
  count isStoreStatus (trace (connect env c)) = 0 /\
  count isGoReader (trace (connect env c)) = 0.
Proof.
  destruct (decide (status c = StatConnected)) as [Hst | Hst].
  { rewrite connect_connected by assumption. discriminate. }
  destruct (verifyProtocolVersion env) as [e1 |] eqn:Hver.
  { rewrite (connect_bad_protocol env c e1) by assumption. cbn. auto. }
  destruct (Dial env (serverAddr c)) as [e1 |] eqn:Hdial.
  { rewrite (connect_dial_error env c e1) by assumption. cbn. auto. }
  destruct (session c) as [sess |] eqn:Hsess.
  - rewrite (connect_with_session env c sess) by assumption. discriminate.
  - rewrite connect_no_session by assumption. discriminate.
Qed.

Lemma connect_failure_leaves_client_unchanged_witness :
  final (connect envDialFails clientWithSession) = clientWithSession.
Proof.
  exact (proj1 (connect_failure_leaves_client_unchanged
                  envDialFails clientWithSession "connection refused" eq_refl)).
Defined.

(** * Properties of the reader goroutine *)

Ltac run_reader :=
  unfold readerThenReconnect, reconnectTask;
  cbn [reader readerStep];
  unfold onReadError, value, final, trace, count, bind, loadStatus, get, emit,
    ret, storeStatus, setSession, setTracker, when in *;
  cbn [fst snd status session autoconnect serverAddr tracker] in *.

Section ReaderFacts.

Variable env : Env.
Variable handleMessage : Message -> M (option error).

Lemma reader_read_error
    (c : Client) (err : SockReadErr) (rest : list (Message + SockReadErr)) :
  reader handleMessage (inr err :: rest) c =
  (Returned, afterReadError c, readErrorTrace c err).
Proof.
  unfold afterReadError, readErrorTrace.
  cbn [reader readerStep].
  unfold onReadError, bind, when, loadStatus, emit, ret, storeStatus.
  destruct (IsAbnormalCloseErr err); cbn;
    destruct (bool_decide (status c = StatConnected)); reflexivity.
Qed.

Lemma reader_message
    (m : Message) (rest : list (Message + SockReadErr)) (c : Client) :
  reader handleMessage (inl m :: rest) c =
  (let '(e, c1, t1) := handleMessage m c in
   let '(s, c2, t2) := reader handleMessage rest c1 in
   (s, c2,
    t1 ++
    match e with
    | Some err => [EvWarningLog ("Failed handling message:" +:+ err)]
    | None => []
    end ++ t2)).
Proof.
  cbn [reader readerStep]. unfold bind.
  destruct (handleMessage m c) as [[e c1] t1].
  destruct e as [err |]; unfold emit, ret; cbn [fst snd];
    destruct (reader handleMessage rest c1) as [[s c2] t2];
    cbn; rewrite ?app_nil_r, <- ?app_assoc; reflexivity.
Qed.

Lemma reader_messages_then
    (ms : list Message) (rs : list (Message + SockReadErr)) :
  forall c : Client,
    reader handleMessage (map inl ms ++ rs) c =
    (let '(_, c1, t1) := reader handleMessage (map inl ms) c in
     let '(s, c2, t2) := reader handleMessage rs c1 in
     (s, c2, t1 ++ t2)).
Proof.
  induction ms as [| m ms IH]; intros c.
  - cbn. destruct (reader handleMessage rs c) as [[s c2] t2]. reflexivity.
  - cbn [map app]. rewrite !reader_message.
    destruct (handleMessage m c) as [[e c1] t1].
    rewrite IH.
    destruct (reader handleMessage (map inl ms) c1) as [[s1 c2] t2].
    destruct (reader handleMessage rs c2) as [[s3 c3] t3].
    rewrite <- !app_assoc. reflexivity.
Qed.

Lemma afterReadError_status (c : Client) :
  status (afterReadError c) =
  match status c with
  | StatConnected => StatDisconnected
  | st => st
  end.
Proof.
  unfold afterReadError.
  case_bool_decide as Hst; [rewrite Hst; reflexivity |].
  destruct (status c); congruence.
Qed.

Lemma afterReadError_autoconnect (c : Client) :
  autoconnect (afterReadError c) = autoconnect c.
Proof. unfold afterReadError. case_bool_decide; reflexivity. Qed.

Lemma afterReadError_disabled_iff (c : Client) :
  status (afterReadError c) = StatDisabled <-> status c = StatDisabled.
Proof.
  rewrite afterReadError_status. destruct (status c); split; congruence.
Qed.

Lemma reconnectTask_attempts (c : Client) :
  count isTryAutoconnect (trace (reconnectTask env c)) =
  if autoconnect c && negb (bool_decide (status c = StatDisabled))
  then 1 else 0.
Proof.
  run_reader.
  destruct (autoconnect c && negb (bool_decide (status c = StatDisabled)));
    [destruct (tryAutoconnect env 0) |]; reflexivity.
Qed.

Lemma readErrorTrace_counts (c : Client) (err : SockReadErr) :
  count isOnDisconnected (readErrorTrace c err) = 1 /\
  count isGoReconnect (readErrorTrace c err) = 1 /\
  count isTryAutoconnect (readErrorTrace c err) = 0 /\
  count isStoreStatus (readErrorTrace c err) =
    (if bool_decide (status c = StatConnected) then 1 else 0).
Proof.
  unfold readErrorTrace, count.
  destruct (IsAbnormalCloseErr err), (bool_decide (status c = StatConnected));
    cbn; auto.
Qed.

Lemma count_app (p : Event -> bool) (t1 t2 : list Event) :
  count p (t1 ++ t2) = count p t1 + count p t2.
Proof. unfold count. rewrite List.filter_app, length_app. reflexivity. Qed.

Lemma readerThenReconnect_read_error
    (c : Client) (err : SockReadErr) (rest : list (Message + SockReadErr)) :
  readerThenReconnect env handleMessage (inr err :: rest) c =
  (Returned,
   final (reconnectTask env (afterReadError c)),
   readErrorTrace c err ++ trace (reconnectTask env (afterReadError c))).
Proof.
  unfold readerThenReconnect, bind at 1.
  rewrite reader_read_error.
  unfold bind, ret, final, trace.
  destruct (reconnectTask env (afterReadError c)) as [[u c2] t2].
  cbn. rewrite app_nil_r. reflexivity.
Qed.

End ReaderFacts.

(** C2: on a read error the reader leaves every client that is not Disabled
    in status Disconnected, for each status that the source names, and it
    leaves a Disabled client Disabled; in every case it calls the
    disconnect hook exactly once. *)
Theorem reader_error_disconnects
    (handleMessage : Message -> M (option error))
    (c : Client) (err : SockReadErr) (rest : list (Message + SockReadErr)) :
  isSourceStatus (status c) = true ->
  value (reader handleMessage (inr err :: rest) c) = Returned /\
  count isOnDisconnected
        (trace (reader handleMessage (inr err :: rest) c)) = 1 /\
  (status c <> StatDisabled ->
   status (final (reader handleMessage (inr err :: rest) c))
     = StatDisconnected) /\
  (status c = StatDisabled ->
   status (final (reader handleMessage (inr err :: rest) c))
     = StatDisabled).
Proof.
  intros Hsrc.
  destruct (readErrorTrace_counts c err) as (Hhook & _ & _ & _).
  rewrite reader_read_error.
  unfold value, final, trace. cbn [fst snd].
  rewrite afterReadError_status.
  split; [reflexivity |]. split; [exact Hhook |].
  destruct (status c); cbn in Hsrc; split; congruence.
Qed.

Lemma reader_error_disconnects_witness :
  status (final (reader handleMessageSpec [inr abnormalClosure]
                        (clientIn StatConnected))) = StatDisconnected /\
  status (final (reader handleMessageSpec [inr abnormalClosure]
                        (clientIn StatDisconnected))) = StatDisconnected /\
  status (final (reader handleMessageSpec [inr abnormalClosure]
                        (clientIn StatDisabled))) = StatDisabled.
Proof.
  destruct (reader_error_disconnects handleMessageSpec
              (clientIn StatConnected) abnormalClosure [] eq_refl)
    as (_ & _ & Hcon & _).
  destruct (reader_error_disconnects handleMessageSpec
              (clientIn StatDisconnected) abnormalClosure [] eq_refl)
    as (_ & _ & Hdis & _).
  destruct (reader_error_disconnects handleMessageSpec
              (clientIn StatDisabled) abnormalClosure [] eq_refl)
    as (_ & _ & _ & Hoff).
  split; [apply Hcon; discriminate |].
  split; [apply Hdis; discriminate | apply Hoff; reflexivity].
Defined.

(** C4: after a read error the reader always hands reconnection to a
    separate goroutine and never calls [tryAutoconnect] itself; that
    goroutine calls [tryAutoconnect] if and only if autoconnect is on and the
    status it loads is not Disabled.  When it runs on the client as the
    reader left it, that is the case exactly when autoconnect is on and the
    client was not Disabled at the time of the error; a Disabled client is
    never reconnected. *)
Theorem reconnect_iff_autoconnect_and_not_disabled
    (env : Env) (handleMessage : Message -> M (option error))
    (c : Client) (err : SockReadErr) (rest : list (Message + SockReadErr)) :
  count isGoReconnect (trace (reader handleMessage (inr err :: rest) c)) = 1 /\
  count isTryAutoconnect
        (trace (reader handleMessage (inr err :: rest) c)) = 0 /\
  (forall c' : Client,
      count isTryAutoconnect (trace (reconnectTask env c')) = 1 <->
      autoconnect c' = true /\ status c' <> StatDisabled) /\
  (forall c' : Client,
      count isTryAutoconnect (trace (reconnectTask env c')) = 0 <->
      ~ (autoconnect c' = true /\ status c' <> StatDisabled)) /\
  (count isTryAutoconnect
         (trace (readerThenReconnect env handleMessage (inr err :: rest) c))
     = 1 <->
   autoconnect c = true /\ status c <> StatDisabled) /\
  (status c = StatDisabled ->
   count isTryAutoconnect
         (trace (readerThenReconnect env handleMessage (inr err :: rest) c))
     = 0).
Proof.
  assert (Htask : forall c' : Client,
             (count isTryAutoconnect (trace (reconnectTask env c')) = 1 <->
              autoconnect c' = true /\ status c' <> StatDisabled) /\
             (count isTryAutoconnect (trace (reconnectTask env c')) = 0 <->
              ~ (autoconnect c' = true /\ status c' <> StatDisabled))).
  { intros c'. rewrite reconnectTask_attempts.
    destruct (autoconnect c'); cbn [andb];
      [case_bool_decide as Hd; cbn [negb] |];
      intuition (try discriminate; try congruence). }
  destruct (readErrorTrace_counts c err) as (_ & Hgo & Htry & _).
  rewrite reader_read_error, readerThenReconnect_read_error.
  unfold trace at 1 2. cbn [snd].
  split; [exact Hgo |]. split; [exact Htry |].
  split; [intros c'; apply Htask |]. split; [intros c'; apply Htask |].
  unfold trace at 1 3. cbn [snd]. rewrite count_app, Htry. cbn [Nat.add].
  fold (trace (reconnectTask env (afterReadError c))).
  split.
  - rewrite (proj1 (Htask (afterReadError c))).
    rewrite afterReadError_autoconnect, afterReadError_disabled_iff.
    reflexivity.
  - intros Hdis. apply (proj2 (Htask (afterReadError c))).
    rewrite afterReadError_disabled_iff. tauto.
Qed.

Lemma reconnect_iff_autoconnect_and_not_disabled_witness :
  count isTryAutoconnect
        (trace (readerThenReconnect envOk handleMessageSpec
                                    [inr abnormalClosure]
                                    (clientIn StatConnected))) = 1 /\
  count isTryAutoconnect
        (trace (readerThenReconnect envOk handleMessageSpec
                                    [inr abnormalClosure]
                                    (clientIn StatDisabled))) = 0.
Proof.
  split.
  - apply (reconnect_iff_autoconnect_and_not_disabled
             envOk handleMessageSpec (clientIn StatConnected)
             abnormalClosure []).
    split; [reflexivity | discriminate].
  - apply (reconnect_iff_autoconnect_and_not_disabled
             envOk handleMessageSpec (clientIn StatDisabled)
             abnormalClosure []).
    reflexivity.
Defined.

(** C10: every exit of the reader on a read error invokes the disconnect
    hook exactly once, whatever the status.  On a Disabled client the hook
    still fires, no status is stored, the client stays Disabled and the
    spawned goroutine does not call [tryAutoconnect]. *)
Theorem disconnect_hook_fires_on_every_error_exit
    (env : Env) (handleMessage : Message -> M (option error))
    (c : Client) (err : SockReadErr) (rest : list (Message + SockReadErr)) :
  value (reader handleMessage (inr err :: rest) c) = Returned /\
  count isOnDisconnected
        (trace (reader handleMessage (inr err :: rest) c)) = 1 /\
  (status c = StatDisabled ->
   count isOnDisconnected
         (trace (reader handleMessage (inr err :: rest) c)) = 1 /\
   count isStoreStatus
         (trace (reader handleMessage (inr err :: rest) c)) = 0 /\
   final (reader handleMessage (inr err :: rest) c) = c /\
   status (final (reader handleMessage (inr err :: rest) c)) = StatDisabled /\
   count isTryAutoconnect
         (trace (readerThenReconnect env handleMessage (inr err :: rest) c))
     = 0).
Proof.
  destruct (readErrorTrace_counts c err) as (Hhook & _ & Htry & Hstore).
  rewrite reader_read_error, readerThenReconnect_read_error.
  unfold value, final, trace. cbn [fst snd].
  split; [reflexivity |]. split; [exact Hhook |].
  intros Hdis.
  assert (Hafter : afterReadError c = c).
  { unfold afterReadError. rewrite Hdis. reflexivity. }
  split; [exact Hhook |].
  split; [rewrite Hstore, Hdis; reflexivity |].
  split; [exact Hafter |].
  split; [rewrite Hafter; exact Hdis |].
  rewrite count_app, Htry, Hafter. cbn [Nat.add].
  fold (trace (reconnectTask env c)).
  rewrite reconnectTask_attempts, Hdis.
  rewrite andb_false_r. reflexivity.
Qed.

Lemma disconnect_hook_fires_on_every_error_exit_witness :
  count isOnDisconnected
        (trace (reader handleMessageSpec [inr normalClosure]
                       (clientIn StatDisabled))) = 1 /\
  status (final (reader handleMessageSpec [inr normalClosure]
                        (clientIn StatDisabled))) = StatDisabled.
Proof.
  destruct (disconnect_hook_fires_on_every_error_exit
              envOk handleMessageSpec (clientIn StatDisabled)
              normalClosure []) as (_ & _ & H).
  destruct (H eq_refl) as (Hhook & _ & _ & Hst & _).
  split; assumption.
Defined.

(** * Properties of the request tracker and of dispatch *)

Lemma expire_keeps_pending (now id d : nat) (t : Tracker) :
  pending t !! id = Some d ->
  now < d ->
  pending (expire now t) !! id = Some d.
Proof.
  intros Hp Hlt. unfold expire. cbn [pending].
  apply map_lookup_filter_Some. split; [exact Hp | exact Hlt].
Qed.

Lemma expire_keeps_result (now id : nat) (t : Tracker) :
  pending t !! id = None ->
  pending (expire now t) !! id = None /\
  results (expire now t) !! id = results t !! id.
Proof.
  intros Hp. unfold expire. cbn [pending results]. split.
  - apply map_lookup_filter_None. left. exact Hp.
  - apply lookup_union_r. rewrite lookup_fmap.
    replace (filter (fun kd : nat * nat => kd.2 <= now) (pending t) !! id)
      with (@None nat); [reflexivity |].
    symmetry. apply map_lookup_filter_None. left. exact Hp.
Qed.

Lemma complete_pending (id d : nat) (o : Outcome) (t : Tracker) :
  pending t !! id = Some d ->
  pending (complete id o t) !! id = None /\
  results (complete id o t) !! id = Some o.
Proof.
  intros Hp. unfold complete. rewrite Hp. cbn [pending results].
  split; [apply lookup_delete_eq | apply lookup_insert_eq].
Qed.

Lemma complete_absent (id : nat) (o : Outcome) (t : Tracker) :
  pending t !! id = None ->
  complete id o t = t.
Proof. intros Hp. unfold complete. rewrite Hp. reflexivity. Qed.

Lemma complete_other (id id' : nat) (o : Outcome) (t : Tracker) :
  id' <> id ->
  pending (complete id' o t) !! id = pending t !! id /\
  results (complete id' o t) !! id = results t !! id.
Proof.
  intros Hne. unfold complete.
  destruct (pending t !! id') as [d' |]; cbn [pending results];
    [| split; reflexivity].
  split; [apply lookup_delete_ne | apply lookup_insert_ne]; exact Hne.
Qed.

Lemma send_registers (deadline : nat) (t : Tracker) :
  fst (send deadline t) = nextId t /\
  pending (snd (send deadline t)) !! nextId t = Some deadline.
Proof.
  unfold send. cbn [fst snd pending]. split; [reflexivity |].
  apply lookup_insert_eq.
Qed.

Lemma final_bind {A B : Type} (m : M A) (k : A -> M B) (c : Client) :
  final (bind m k c) = final (k (value (m c)) (final (m c))).
Proof.
  unfold bind, final, value.
  destruct (m c) as [[a c1] t1]. cbn [fst snd].
  destruct (k a c1) as [[b c2] t2]. reflexivity.
Qed.

Lemma handleMessageSpec_effect (m : Message) (c : Client) :
  value (handleMessageSpec m c) = None /\
  status (final (handleMessageSpec m c)) = status c /\
  tracker (final (handleMessageSpec m c)) =
    match m with
    | Reply id payload => complete id (inl payload) (tracker c)
    | _ => tracker c
    end.
Proof. destruct m; cbn; auto. Qed.

Lemma run_clock (now : nat) (rest : list SysEvent) (s : ReaderState)
    (c : Client) :
  final (run (SysClock now :: rest) s c) =
  final (run rest s (final (setTracker (expire now (tracker c)) c))).
Proof. cbn [run]. rewrite !final_bind. reflexivity. Qed.

Lemma run_message (m : Message) (rest : list SysEvent) (c : Client) :
  final (run (SysRead (inl m) :: rest) Reading c) =
  final (run rest Reading (final (handleMessageSpec m c))).
Proof.
  destruct (handleMessageSpec_effect m c) as (Hv & _ & _).
  cbn [run readerStep]. unfold final, value, bind in *.
  destruct (handleMessageSpec m c) as [[e c1] t1].
  cbn [fst snd] in *. subst e. unfold ret. cbn [fst snd].
  destruct (run rest Reading c1) as [[s2 c2] t2]. reflexivity.
Qed.

Lemma readerStep_read_error (handleMessage : Message -> M (option error))
    (err : SockReadErr) (c : Client) :
  value (readerStep handleMessage (inr err) c) = Returned /\
  final (readerStep handleMessage (inr err) c) = afterReadError c.
Proof.
  cbn [readerStep].
  unfold afterReadError, onReadError, bind, when, loadStatus, emit, ret,
    storeStatus, value, final.
  destruct (IsAbnormalCloseErr err); cbn;
    destruct (bool_decide (status c = StatConnected)); split; reflexivity.
Qed.

Lemma run_read_error (err : SockReadErr) (rest : list SysEvent) (c : Client) :
  final (run (SysRead (inr err) :: rest) Reading c) =
  final (run rest Returned (afterReadError c)).
Proof.
  destruct (readerStep_read_error handleMessageSpec err c) as [Hv Hf].
  cbn [run]. unfold final, value, bind in *.
  destruct (readerStep handleMessageSpec (inr err) c) as [[s1 c1] t1].
  cbn [fst snd] in *. subst s1 c1. unfold emit. cbn [fst snd].
  destruct (run rest Returned (afterReadError c)) as [[s2 c2] t2].
  reflexivity.
Qed.

Lemma run_returned (r : Message + SockReadErr) (rest : list SysEvent)
    (c : Client) :
  run (SysRead r :: rest) Returned c = run rest Returned c.
Proof. reflexivity. Qed.

(** Once request [id] is completed, nothing that happens later changes what
    its caller is resumed with. *)
Lemma run_completed_stable (id : nat) (o : Outcome) (evs : list SysEvent) :
  forall (s : ReaderState) (c : Client),
    pending (tracker c) !! id = None ->
    results (tracker c) !! id = Some o ->
    requestResult id (final (run evs s c)) = Some o.
Proof.
  induction evs as [| ev evs IH]; intros s c Hp Hr.
  - exact Hr.
  - destruct ev as [[m | err] | now].
    + destruct s; [| rewrite run_returned; apply IH; assumption].
      rewrite run_message.
      destruct (handleMessageSpec_effect m c) as (_ & _ & Ht).
      apply IH; rewrite Ht; destruct m as [id' p | p | |]; try assumption.
      * destruct (decide (id' = id)) as [-> | Hne].
        -- rewrite complete_absent by assumption. assumption.
        -- rewrite (proj1 (complete_other id id' (inl p) (tracker c) Hne)).
           assumption.
      * destruct (decide (id' = id)) as [-> | Hne].
        -- rewrite complete_absent by assumption. assumption.
        -- rewrite (proj2 (complete_other id id' (inl p) (tracker c) Hne)).
           assumption.
    + destruct s; [| rewrite run_returned; apply IH; assumption].
      rewrite run_read_error.
      apply IH; unfold afterReadError; case_bool_decide; assumption.
    + rewrite run_clock.
      destruct (expire_keeps_result now id (tracker c) Hp) as [Hp' Hr'].
      apply IH; cbn [setTracker final fst snd tracker];
        [exact Hp' | rewrite Hr'; exact Hr].
Qed.

(** While only quiet events happen, the reply of request [id] is delivered
    to its caller when it is read. *)
Lemma run_reply_after_quiet (id d : nat) (reply : Payload)
    (post : list SysEvent) (pre : list SysEvent) :
  forall c : Client,
    forallb (quiet id d) pre = true ->
    pending (tracker c) !! id = Some d ->
    requestResult id
      (final (run (pre ++ SysRead (inl (Reply id reply)) :: post) Reading c))
    = Some (inl reply).
Proof.
  induction pre as [| ev pre IH]; intros c Hq Hp.
  - cbn [app]. rewrite run_message.
    destruct (handleMessageSpec_effect (Reply id reply) c) as (_ & _ & Ht).
    destruct (complete_pending id d (inl reply) (tracker c) Hp) as [Hp' Hr'].
    apply run_completed_stable; rewrite Ht; assumption.
  - cbn [forallb] in Hq. apply andb_prop in Hq as [Hev Hq].
    cbn [app]. destruct ev as [[m | err] | now]; cbn [quiet] in Hev.
    + rewrite run_message. apply IH; [exact Hq |].
      destruct (handleMessageSpec_effect m c) as (_ & _ & Ht). rewrite Ht.
      destruct m as [id' p | p | |]; try exact Hp.
      apply negb_true_iff, Nat.eqb_neq in Hev.
      rewrite (proj1 (complete_other id id' (inl p) (tracker c) Hev)).
      exact Hp.
    + discriminate.
    + rewrite run_clock. apply IH; [exact Hq |].
      cbn [setTracker final fst snd tracker].
      apply expire_keeps_pending; [exact Hp |].
      apply Nat.ltb_lt. exact Hev.
Qed.

Lemma connect_succeeds (env : Env) (c : Client) :
  verifyProtocolVersion env = None ->
  Dial env (serverAddr c) = None ->
  value (connect env c) = None /\
  status (final (connect env c)) = StatConnected /\
  tracker (final (connect env c)) = tracker c.
Proof.
  intros Hver Hdial.
  destruct (decide (status c = StatConnected)) as [Hst | Hst].
  { rewrite connect_connected by assumption. cbn. auto. }
  destruct (session c) as [sess |] eqn:Hsess.
  - rewrite (connect_with_session env c sess) by assumption. cbn. auto.
  - rewrite connect_no_session by assumption. cbn. auto.
Qed.

Lemma request_registers (name : string) (payload : Payload)
    (now timeout : nat) (c : Client) :
  request name payload now timeout c =
  (nextId (tracker c),
   final (setTracker (snd (send (now + timeout) (tracker c))) c),
   [EvWrite (nextId (tracker c)) name payload]).
Proof. reflexivity. Qed.

(** C8: a client connects and sends the request "login" with payload
    "credentials"; if the reply to that request is read before the request's
    deadline has elapsed (and before any read error), the caller is resumed
    with the reply payload and no error, whatever else was dispatched before
    and whatever happens afterwards. *)
Theorem request_login_returns_reply
    (env : Env) (c0 : Client) (now timeout : nat) (reply : Payload)
    (pre post : list SysEvent) :
  verifyProtocolVersion env = None ->
  Dial env (serverAddr c0) = None ->
  let c := final (connect env c0) in
  let rq := request "login" credentials now timeout c in
  let id := value rq in
  forallb (quiet id (now + timeout)) pre = true ->
  value (connect env c0) = None /\
  status c = StatConnected /\
  trace rq = [EvWrite id "login" credentials] /\
  requestResult id (final rq) = requestResult id c /\
  requestResult id
    (final (run (pre ++ SysRead (inl (Reply id reply)) :: post) Reading
                (final rq)))
  = Some (inl reply).
Proof.
  intros Hver Hdial c rq id Hq.
  destruct (connect_succeeds env c0 Hver Hdial) as (Hv & Hst & Htr).
  assert (Hpend : pending (tracker (final rq)) !! id = Some (now + timeout)).
  { subst id rq. rewrite request_registers.
    apply (send_registers (now + timeout) (tracker c)). }
  split; [exact Hv |]. split; [exact Hst |].
  split; [reflexivity |]. split; [reflexivity |].
  apply (run_reply_after_quiet id (now + timeout)); assumption.
Qed.

Lemma request_login_returns_reply_witness :
  requestResult 0
    (final (run ([SysClock 1; SysRead (inl (Notification emptyPayload))] ++
                 SysRead (inl (Reply 0 emptyPayload)) ::
                 [SysClock 7; SysRead (inl (Reply 0 credentials))])
                Reading
                (final (request "login" credentials 0 2
                                (final (connect envOk freshClient))))))
  = Some (inl emptyPayload).
Proof.
  apply (request_login_returns_reply
           envOk freshClient 0 2 emptyPayload
           [SysClock 1; SysRead (inl (Notification emptyPayload))]
           [SysClock 7; SysRead (inl (Reply 0 credentials))]
           eq_refl eq_refl).
  reflexivity.
Defined.

Lemma handleMessageSpec_hook (m : Message) (c : Client) :
  count isOnSessionClosed (trace (handleMessageSpec m c)) =
    (if isSessionClosed m then 1 else 0) /\
  session (final (handleMessageSpec m c)) =
    (if isSessionClosed m then None else session c).
Proof. destruct m; cbn; auto. Qed.

(** The reader fires the session-closed hook once per session-closed signal
    it reads, and any such signal leaves the session store empty. *)
Lemma reader_session_closed_signals (ms : list Message) :
  forall c : Client,
    value (reader handleMessageSpec (map inl ms) c) = Reading /\
    count isOnSessionClosed (trace (reader handleMessageSpec (map inl ms) c))
      = length (List.filter isSessionClosed ms) /\
    session (final (reader handleMessageSpec (map inl ms) c)) =
      (if existsb isSessionClosed ms then None else session c).
Proof.
  induction ms as [| m ms IH]; intros c.
  - cbn. auto.
  - cbn [map]. rewrite reader_message.
    destruct (handleMessageSpec_effect m c) as (Hv & _ & _).
    destruct (handleMessageSpec_hook m c) as (Hc & Hs).
    destruct (handleMessageSpec m c) as [[e c1] t1].
    unfold value, final, trace in Hv, Hc, Hs. cbn [fst snd] in Hv, Hc, Hs.
    subst e.
    destruct (IH c1) as (IHv & IHc & IHs).
    destruct (reader handleMessageSpec (map inl ms) c1) as [[s2 c2] t2].
    unfold value, final, trace in *. cbn [fst snd app] in *.
    split; [exact IHv |].
    rewrite count_app, Hc, IHc, IHs, Hs. cbn [List.filter existsb].
    destruct (isSessionClosed m); cbn [orb length Nat.add].
    + split; [reflexivity |]. destruct (existsb isSessionClosed ms); reflexivity.
    + split; reflexivity.
Qed.

(** C7: when the frames read after authentication contain the server's
    session-closed signal exactly once, the reader fires the
    [OnSessionClosed] hook exactly once and a snapshot of the session store
    taken afterwards is none. *)
Theorem session_closed_hook_fires_exactly_once
    (c : Client) (ms : list Message) :
  length (List.filter isSessionClosed ms) = 1 ->
  value (reader handleMessageSpec (map inl ms) c) = Reading /\
  count isOnSessionClosed (trace (reader handleMessageSpec (map inl ms) c))
    = 1 /\
  snapshot (final (reader handleMessageSpec (map inl ms) c)) = None.
Proof.
  intros Hone.
  destruct (reader_session_closed_signals ms c) as (Hv & Hc & Hs).
  split; [exact Hv |]. split; [rewrite Hc; exact Hone |].
  unfold snapshot. rewrite Hs.
  destruct (existsb isSessionClosed ms) eqn:Hex; [reflexivity |].
  exfalso.
  assert (Hnil : List.filter isSessionClosed ms = []).
  { clear -Hex. induction ms as [| m ms IH]; [reflexivity |].
    cbn in Hex |- *. apply orb_false_elim in Hex as [Hm Hms].
    rewrite Hm. apply IH. exact Hms. }
  rewrite Hnil in Hone. discriminate.
Qed.

Lemma session_closed_hook_fires_exactly_once_witness :
  count isOnSessionClosed
        (trace (reader handleMessageSpec
                       (map inl [Reply 0 emptyPayload; SessionClosedSignal])
                       (clientIn StatConnected))) = 1 /\
  snapshot (final (reader handleMessageSpec
                          (map inl [Reply 0 emptyPayload; SessionClosedSignal])
                          (clientIn StatConnected))) = None.
Proof.
  destruct (session_closed_hook_fires_exactly_once
              (clientIn StatConnected)
              [Reply 0 emptyPayload; SessionClosedSignal] eq_refl)
    as (_ & Hc & Hs).
  split; assumption.
Defined.

(** * Further properties of connect *)

(** Case analysis along the return paths of [connect]: already connected,
    protocol mismatch, dial failure, restoration failed, restoration
    succeeded, no session. *)
Ltac by_connect_path env c :=
  let Hst := fresh "Hst" in
  let Hver := fresh "Hver" in
  let Hdial := fresh "Hdial" in
  let Hsess := fresh "Hsess" in
  let Hres := fresh "Hres" in
  destruct (decide (status c = StatConnected)) as [Hst | Hst];
  [ rewrite (connect_connected env c Hst)
  | destruct (verifyProtocolVersion env) as [?e |] eqn:Hver;
    [ rewrite (connect_bad_protocol env c _ Hst Hver)
    | destruct (Dial env (serverAddr c)) as [?e |] eqn:Hdial;
      [ rewrite (connect_dial_error env c _ Hst Hver Hdial)
      | destruct (session c) as [?sess |] eqn:Hsess;
        [ rewrite (connect_with_session env c _ Hst Hver Hdial Hsess);
          destruct (requestSessionRestoration env (bytes (Key sess)))
            as [?r [?e |]] eqn:Hres
        | rewrite (connect_no_session env c Hst Hver Hdial Hsess) ] ] ] ];
  unfold value, final, trace, count;
  cbn [fst snd app List.filter length status session autoconnect serverAddr
       tracker].

(** X2: the only errors connect returns are the protocol mismatch and the
    dial failure of a client that was not yet Connected; the outcome of the
    session restoration never reaches the caller. *)
Theorem connect_error_iff (env : Env) (c : Client) (e : error) :
  value (connect env c) = Some e <->
  status c <> StatConnected /\
  (verifyProtocolVersion env = Some e \/
   verifyProtocolVersion env = None /\ Dial env (serverAddr c) = Some e).
Proof.
  by_connect_path env c; intuition congruence.
Qed.



(** X4: on every return path connect uses its locks correctly: it takes
    [connectLock] first and releases it last, everything else happens
    inside that critical section, [sessionLock] is released in the mode it
    was taken, no lock is held when connect returns, and [sessionLock] is
    never held during protocol verification, dialing or the restoration
    request. *)
Theorem connect_lock_discipline (env : Env) (c : Client) :
  checkLocks noLocks (trace (connect env c)) = Some noLocks /\
  hd_error (trace (connect env c)) = Some (EvLock connectLock OpLock) /\
  last (trace (connect env c)) = Some (EvLock connectLock OpUnlock).
Proof.
  by_connect_path env c; cbn; auto.
Qed.

(** X5: connect starts at most one reader goroutine and dials at most once;
    it starts the reader exactly when the dial succeeded, it starts it
    before it stores the status, and the only status it ever stores is
    Connected. *)
Theorem connect_starts_one_reader (env : Env) (c : Client) :
  count isGoReader (trace (connect env c)) <= 1 /\
  count isDial (trace (connect env c)) <= 1 /\
  (count isGoReader (trace (connect env c)) = 1 <->
   status c <> StatConnected /\ verifyProtocolVersion env = None /\
   Dial env (serverAddr c) = None) /\
  List.filter isStoreStatus (trace (connect env c)) =
    repeat (EvStoreStatus StatConnected)
           (count isGoReader (trace (connect env c))) /\
  precededBy isGoReader isStoreStatus false (trace (connect env c)) = true.
Proof.
  by_connect_path env c; cbn;
    (split; [lia |]); (split; [lia |]);
    (split; [intuition (try congruence; try discriminate) |]);
    split; reflexivity.
Qed.

(** X8: connect does not look at the status beyond the test for Connected:
    a Disabled client whose server is reachable is dialed and becomes
    Connected like a Disconnected one. *)
Theorem connect_enables_disabled_client (env : Env) (c : Client) :
  status c = StatDisabled ->
  verifyProtocolVersion env = None ->
  Dial env (serverAddr c) = None ->
  value (connect env c) = None /\
  status (final (connect env c)) = StatConnected /\
  count isDial (trace (connect env c)) = 1 /\
  count isGoReader (trace (connect env c)) = 1.
Proof.
  intros Hdis Hver Hdial.
  assert (Hst : status c <> StatConnected) by (rewrite Hdis; discriminate).
  destruct (session c) as [sess |] eqn:Hsess.
  - rewrite (connect_with_session env c sess) by assumption.
    destruct (requestSessionRestoration env (bytes (Key sess))) as [r [e |]];
      cbn; auto.
  - rewrite connect_no_session by assumption. cbn. auto.
Qed.

Lemma connect_enables_disabled_client_witness :
  value (connect envOk (clientIn StatDisabled)) = None /\
  status (final (connect envOk (clientIn StatDisabled))) = StatConnected /\
  count isDial (trace (connect envOk (clientIn StatDisabled))) = 1 /\
  count isGoReader (trace (connect envOk (clientIn StatDisabled))) = 1.
Proof.
  apply (connect_enables_disabled_client envOk (clientIn StatDisabled));
    reflexivity.
Defined.

(** * Further properties of the reader goroutine *)

Lemma reader_returns_iff (handleMessage : Message -> M (option error))
    (reads : list (Message + SockReadErr)) :
  forall c : Client,
    (existsb isReadError reads = true ->
     value (reader handleMessage reads c) = Returned /\
     exists t, trace (reader handleMessage reads c) = t ++ [EvClose]) /\
    (existsb isReadError reads = false ->
     value (reader handleMessage reads c) = Reading).
Proof.
  induction reads as [| [m | err] reads IH]; intros c.
  - cbn. split; [discriminate | reflexivity].
  - rewrite reader_message. cbn [existsb isReadError orb].
    destruct (handleMessage m c) as [[e c1] t1].
    destruct (IH c1) as [IHt IHf].
    destruct (reader handleMessage reads c1) as [[s c2] t2].
    unfold value, trace in *. cbn [fst snd] in *.
    split; [| exact IHf].
    intros Hex. destruct (IHt Hex) as [Hv [t Ht]].
    split; [exact Hv |]. subst t2.
    eexists. rewrite !app_assoc. reflexivity.
  - rewrite reader_read_error. cbn [existsb isReadError orb].
    split; [| discriminate]. intros _.
    split; [reflexivity |].
    unfold trace, readErrorTrace. cbn [snd].
    eexists. rewrite !app_assoc.
    change [EvOnDisconnected; EvGoReconnect; EvClose]
      with ([EvOnDisconnected; EvGoReconnect] ++ [EvClose]).
    rewrite app_assoc. reflexivity.
Qed.

(** X9: the reader goroutine returns exactly when one of its reads fails;
    a message whose handler reports an error never ends the loop.  When it
    returns, the deferred close of the connection is the last thing it
    does. *)
Theorem reader_returns_iff_read_error
    (handleMessage : Message -> M (option error))
    (reads : list (Message + SockReadErr)) (c : Client) :
  (value (reader handleMessage reads c) = Returned <->
   existsb isReadError reads = true) /\
  (value (reader handleMessage reads c) = Returned ->
   last (trace (reader handleMessage reads c)) = Some EvClose).
Proof.
  destruct (reader_returns_iff handleMessage reads c) as [Ht Hf].
  destruct (existsb isReadError reads).
  - destruct (Ht eq_refl) as [Hv [t Htr]].
    split; [split; auto |].
    intros _. rewrite Htr. apply last_snoc.
  - rewrite (Hf eq_refl). split; [split |]; discriminate.
Qed.

Lemma reader_returns_iff_read_error_witness :
  last (trace (reader handleMessagePicky
                      [inl (Notification emptyPayload); inr normalClosure]
                      freshClient)) = Some EvClose.
Proof.
  apply (reader_returns_iff_read_error handleMessagePicky
           [inl (Notification emptyPayload); inr normalClosure] freshClient).
  reflexivity.
Defined.

(** X10: nothing is read after the first failed read: whatever would have
    arrived later has no effect on the client or on the trace. *)
Theorem reader_stops_at_first_error
    (handleMessage : Message -> M (option error))
    (pre rest : list (Message + SockReadErr)) (err : SockReadErr)
    (c : Client) :
  reader handleMessage (pre ++ inr err :: rest) c =
  reader handleMessage (pre ++ [inr err]) c.
Proof.
  revert c. induction pre as [| [m | e0] pre IH]; intros c; cbn [app].
  - rewrite !reader_read_error. reflexivity.
  - rewrite !reader_message.
    destruct (handleMessage m c) as [[e c1] t1].
    rewrite IH. reflexivity.
  - rewrite !reader_read_error. reflexivity.
Qed.

(** X11: messages read before the failure are all handled first, in order;
    the error branch then runs once on the client as the handlers left it:
    the status becomes Disconnected if it was Connected at that point and
    is kept otherwise, and the session is not touched. *)
Theorem reader_messages_then_error
    (handleMessage : Message -> M (option error))
    (ms : list Message) (err : SockReadErr)
    (rest : list (Message + SockReadErr)) (c : Client) :
  let r0 := reader handleMessage (map inl ms) c in
  let r := reader handleMessage (map inl ms ++ inr err :: rest) c in
  value r = Returned /\
  trace r = trace r0 ++ trace (reader handleMessage [inr err] (final r0)) /\
  status (final r) =
    match status (final r0) with
    | StatConnected => StatDisconnected
    | st => st
    end /\
  session (final r) = session (final r0) /\
  tracker (final r) = tracker (final r0).
Proof.
  cbv zeta. rewrite reader_messages_then.
  destruct (reader handleMessage (map inl ms) c) as [[s0 c0] t0].
  rewrite !reader_read_error.
  unfold value, final, trace. cbn [fst snd].
  rewrite afterReadError_status.
  unfold afterReadError. case_bool_decide; cbn; auto.
Qed.

(** X13: the reader writes to the error log exactly when the failed read is
    an abnormal closure, and then one line that carries the error; a normal
    closure is not logged. *)
Theorem abnormal_closure_is_logged
    (handleMessage : Message -> M (option error))
    (c : Client) (err : SockReadErr) (rest : list (Message + SockReadErr)) :
  List.filter isErrorLog (trace (reader handleMessage (inr err :: rest) c)) =
  if IsAbnormalCloseErr err
  then [EvErrorLog ("Abnormal closure error:" +:+ ErrorText err)]
  else [].
Proof.
  rewrite reader_read_error. unfold trace, readErrorTrace. cbn [snd].
  destruct (IsAbnormalCloseErr err), (bool_decide (status c = StatConnected));
    reflexivity.
Qed.



(** X15: the goroutine spawned after a connection loss calls
    [tryAutoconnect] at most once and always with argument 0, and it writes
    to the error log exactly when that call was made and failed. *)
Theorem reconnect_failure_is_logged (env : Env) (c : Client) :
  (List.filter isTryAutoconnect (trace (reconnectTask env c)) = [] \/
   List.filter isTryAutoconnect (trace (reconnectTask env c)) =
     [EvTryAutoconnect 0]) /\
  List.filter isErrorLog (trace (reconnectTask env c)) =
    (if autoconnect c && negb (bool_decide (status c = StatDisabled))
     then match tryAutoconnect env 0 with
          | Some e =>
            [EvErrorLog
               ("Auto-reconnect failed after connection loss: " +:+ e)]
          | None => []
          end
     else []).
Proof.
  unfold reconnectTask, trace, bind, get, emit, ret. cbn [fst snd].
  destruct (autoconnect c && negb (bool_decide (status c = StatDisabled)));
    [destruct (tryAutoconnect env 0) |]; cbn; auto.
Qed.

(** X16: connect itself never invokes the disconnect hook, never closes
    the connection, never starts a reconnection and never writes to the
    error log, on no return path; the only line it logs is the warning
    for a failed session restoration. *)
Theorem connect_is_quiet (env : Env) (c : Client) :
  count isOnDisconnected (trace (connect env c)) = 0 /\
  count isClose (trace (connect env c)) = 0 /\
  count isGoReconnect (trace (connect env c)) = 0 /\
  count isTryAutoconnect (trace (connect env c)) = 0 /\
  count isErrorLog (trace (connect env c)) = 0 /\
  (forall msg, In (EvWarningLog msg) (trace (connect env c)) ->
     exists sess e,
       session c = Some sess /\
       snd (requestSessionRestoration env (bytes (Key sess))) = Some e /\
       msg = "Couldn't restore session on reconnection: " +:+ e).
Proof.
  by_connect_path env c; cbn; repeat split; auto;
    intros msg Hin; repeat (destruct Hin as [Hin | Hin]; try discriminate);
    try contradiction.
  injection Hin as <-. exists sess, e. rewrite Hres. auto.
Qed.

(** * connect and its reader side by side *)

Lemma restoreSession_effect (env : Env) (c : Client) :
  value (restoreSession env c) = None /\
  status (final (restoreSession env c)) = status c /\
  serverAddr (final (restoreSession env c)) = serverAddr c /\
  count isOnDisconnected (trace (restoreSession env c)) = 0.
Proof.
  unfold restoreSession, value, final, trace, count, bind, get, emit, ret,
    setSession.
  destruct (session c) as [sess |]; cbn; [| auto].
  destruct (requestSessionRestoration env (bytes (Key sess))) as [r [e |]];
    cbn; auto.
Qed.

(** The schedule with a reader that has nothing to read is [connect]. *)
Lemma connectRacing_idle (env : Env)
    (handleMessage : Message -> M (option error)) (c : Client) :
  fst (value (connectRacing env handleMessage [] [] c)) =
    value (connect env c) /\
  final (connectRacing env handleMessage [] [] c) = final (connect env c) /\
  trace (connectRacing env handleMessage [] [] c) = trace (connect env c).
Proof.
  unfold connectRacing, connect, connectLocked, restoreSession.
  unfold value, final, trace, bind, loadStatus, get, emit, ret, storeStatus,
    setSession.
  cbn [reader fst snd status session autoconnect serverAddr tracker].
  unfold ret.
  destruct (decide (status c = StatConnected)); [cbn; auto |].
  destruct (verifyProtocolVersion env); [cbn; auto |].
  destruct (Dial env (serverAddr c)); [cbn; auto |].
  cbn. destruct (session c) as [sess |]; cbn; [| auto].
  destruct (requestSessionRestoration env (bytes (Key sess))) as [r [e |]];
    cbn; auto.
Qed.

(** The schedules of [connectRacing] on the path where the dial succeeds. *)
Lemma connectRacing_dialed (env : Env)
    (handleMessage : Message -> M (option error))
    (early late : list (Message + SockReadErr)) (c : Client) :
  status c <> StatConnected ->
  verifyProtocolVersion env = None ->
  Dial env (serverAddr c) = None ->
  connectRacing env handleMessage early late c =
  (let '(s1, c1, t1) := reader handleMessage early c in
   let c2 := final (storeStatus StatConnected c1) in
   let '(s2, c3, t2) :=
     match s1 with
     | Reading => reader handleMessage late c2
     | Returned => (Returned, c2, [])
     end in
   let '(r, c4, t3) := restoreSession env c3 in
   ((r, Some s2), c4,
    [EvLock connectLock OpLock; EvVerifyProtocolVersion;
     EvDial (serverAddr c); EvGoReader] ++
    t1 ++ [EvStoreStatus StatConnected] ++ t2 ++ t3 ++
    [EvLock connectLock OpUnlock])).
Proof.
  intros Hst Hver Hdial.
  unfold connectRacing, bind, loadStatus, get, emit, ret, storeStatus, final.
  cbn [fst snd].
  destruct (decide (status c = StatConnected)); [contradiction |].
  rewrite Hver, Hdial.
  destruct (reader handleMessage early c) as [[s1 c1] t1].
  cbn [fst snd].
  destruct s1.
  - destruct (reader handleMessage late _) as [[s2 c3] t2].
    destruct (restoreSession env c3) as [[r c4] t3].
    cbn. rewrite ?app_nil_r. repeat (rewrite <- app_assoc; cbn). reflexivity.
  - destruct (restoreSession env _) as [[r c4] t3].
    cbn. rewrite ?app_nil_r. repeat (rewrite <- app_assoc; cbn). reflexivity.
Qed.

Lemma connectRacing_not_dialed (env : Env)
    (handleMessage : Message -> M (option error))
    (early late : list (Message + SockReadErr)) (c : Client) :
  status c = StatConnected \/
  verifyProtocolVersion env <> None \/
  Dial env (serverAddr c) <> None ->
  connectRacing env handleMessage early late c =
  ((value (connect env c), None), final (connect env c),
   trace (connect env c)).
Proof.
  intros Hcase.
  unfold connectRacing, connect, connectLocked.
  unfold value, final, trace, bind, loadStatus, get, emit, ret.
  cbn [fst snd].
  destruct (decide (status c = StatConnected)); [reflexivity |].
  destruct (verifyProtocolVersion env); [reflexivity |].
  destruct (Dial env (serverAddr c)); [reflexivity |].
  destruct Hcase as [? | [? | ?]]; contradiction.
Qed.

Lemma connect_dials_once (env : Env) (c : Client) :
  status c <> StatConnected ->
  verifyProtocolVersion env = None ->
  Dial env (serverAddr c) = None ->
  value (connect env c) = None /\
  count isDial (trace (connect env c)) = 1.
Proof.
  intros Hst Hver Hdial.
  destruct (session c) as [sess |] eqn:Hsess.
  - rewrite (connect_with_session env c sess) by assumption.
    destruct (requestSessionRestoration env (bytes (Key sess))) as [r [e |]];
      cbn; auto.
  - rewrite connect_no_session by assumption. cbn. auto.
Qed.

(** X1: what connect returns does not depend on what its reader goroutine
    does meanwhile: under every schedule of [connectRacing] the result is
    the one of connect with an idle reader.  It is nil exactly when connect
    found the client Connected or stored Connected itself. *)
Theorem connect_result_independent_of_reader
    (env : Env) (handleMessage : Message -> M (option error))
    (early late : list (Message + SockReadErr)) (c : Client) :
  fst (value (connectRacing env handleMessage early late c)) =
    value (connect env c) /\
  (value (connect env c) = None <->
   status c = StatConnected \/
   count isStoreStatus (trace (connect env c)) = 1).
Proof.
  split.
  - destruct (decide (status c = StatConnected)) as [Hst | Hst].
    { rewrite connectRacing_not_dialed by auto. reflexivity. }
    destruct (verifyProtocolVersion env) as [e |] eqn:Hver.
    { rewrite connectRacing_not_dialed by (rewrite Hver; auto).
      reflexivity. }
    destruct (Dial env (serverAddr c)) as [e |] eqn:Hdial.
    { rewrite connectRacing_not_dialed by (rewrite Hdial; auto).
      reflexivity. }
    rewrite connectRacing_dialed by assumption.
    rewrite (proj1 (connect_dials_once env c Hst Hver Hdial)).
    destruct (reader handleMessage early c) as [[s1 c1] t1].
    cbv zeta.
    destruct (match s1 with
              | Reading =>
                reader handleMessage late (final (storeStatus StatConnected c1))
              | Returned =>
                (Returned, final (storeStatus StatConnected c1), [])
              end) as [[s2 c3] t2].
    pose proof (proj1 (restoreSession_effect env c3)) as Hr.
    destruct (restoreSession env c3) as [[r c4] t3].
    exact Hr.
  - by_connect_path env c; intuition (try congruence; try discriminate).
Qed.

(** X7: a nil result of connect does not mean that the client is Connected
    when connect returns.  If the read fails right after connect has stored
    Connected, the reader stores Disconnected and calls the hook while
    connect goes on to return nil; the next connect that reaches the
    server then verifies and dials again instead of returning at once. *)
Theorem connect_nil_after_read_error
    (env : Env) (handleMessage : Message -> M (option error))
    (c : Client) (err : SockReadErr) (rest : list (Message + SockReadErr)) :
  status c <> StatConnected ->
  verifyProtocolVersion env = None ->
  Dial env (serverAddr c) = None ->
  let r := connectRacing env handleMessage [] (inr err :: rest) c in
  value r = (None, Some Returned) /\
  status (final r) = StatDisconnected /\
  count isOnDisconnected (trace r) = 1 /\
  (forall env' : Env,
      verifyProtocolVersion env' = None ->
      Dial env' (serverAddr c) = None ->
      value (connect env' (final r)) = None /\
      count isDial (trace (connect env' (final r))) = 1).
Proof.
  intros Hst Hver Hdial r. subst r.
  rewrite connectRacing_dialed by assumption.
  change (reader handleMessage [] c) with (Reading, c, @nil Event).
  cbv beta iota zeta.
  rewrite reader_read_error.
  set (c2 := afterReadError (final (storeStatus StatConnected c))).
  assert (Hc2 : status c2 = StatDisconnected /\ serverAddr c2 = serverAddr c).
  { subst c2. split; reflexivity. }
  destruct Hc2 as [Hs2 Ha2].
  destruct (restoreSession_effect env c2) as (Hv & Hs & Ha & Hh).
  destruct (readErrorTrace_counts (final (storeStatus StatConnected c)) err)
    as (Hhook & _ & _ & _).
  destruct (restoreSession env c2) as [[r c4] t3].
  unfold value, final, trace in *. cbn [fst snd] in *. subst r.
  split; [reflexivity |].
  split; [congruence |].
  split.
  - rewrite !count_app, Hhook, Hh. reflexivity.
  - intros env' Hver' Hdial'.
    apply connect_dials_once; [congruence | assumption | congruence].
Qed.

Lemma connect_nil_after_read_error_witness :
  value (connectRacing envOk handleMessageSpec [] [inr abnormalClosure]
                       clientWithSession) = (None, Some Returned) /\
  status (final (connectRacing envOk handleMessageSpec []
                               [inr abnormalClosure] clientWithSession))
    = StatDisconnected.
Proof.
  destruct (connect_nil_after_read_error envOk handleMessageSpec
              clientWithSession abnormalClosure []
              ltac:(discriminate) eq_refl eq_refl) as (Hv & Hs & _).
  split; assumption.
Defined.

(** X17: a read that fails before connect has stored the status leaves the
    client Connected without a reader: the error branch finds a status
    other than Connected, stores nothing, calls the hook and returns, and
    only then does connect store Connected and return nil. *)
Theorem connect_connected_without_reader
    (env : Env) (handleMessage : Message -> M (option error))
    (c : Client) (err : SockReadErr)
    (rest late : list (Message + SockReadErr)) :
  status c <> StatConnected ->
  verifyProtocolVersion env = None ->
  Dial env (serverAddr c) = None ->
  let r := connectRacing env handleMessage (inr err :: rest) late c in
  value r = (None, Some Returned) /\
  status (final r) = StatConnected /\
  count isClose (trace r) = 1 /\
  List.filter (fun e => isOnDisconnected e || isStoreStatus e) (trace r) =
    [EvOnDisconnected; EvStoreStatus StatConnected].
Proof.
  intros Hst Hver Hdial r. subst r.
  rewrite connectRacing_dialed by assumption.
  rewrite reader_read_error. cbv beta iota zeta.
  unfold afterReadError, readErrorTrace.
  rewrite (bool_decide_eq_false_2 _ Hst).
  unfold restoreSession, storeStatus, final, value, trace, count, bind, get,
    emit, ret, setSession.
  cbn [fst snd status session autoconnect serverAddr tracker].
  destruct (IsAbnormalCloseErr err);
    (destruct (session c) as [sess |];
     [destruct (requestSessionRestoration env (bytes (Key sess)))
        as [r [e |]] |]);
    cbn; auto.
Qed.

Lemma connect_connected_without_reader_witness :
  value (connectRacing envOk handleMessageSpec [inr normalClosure] []
                       freshClient) = (None, Some Returned) /\
  status (final (connectRacing envOk handleMessageSpec [inr normalClosure] []
                               freshClient)) = StatConnected.
Proof.
  destruct (connect_connected_without_reader envOk handleMessageSpec
              freshClient normalClosure [] []
              ltac:(discriminate) eq_refl eq_refl) as (Hv & Hs & _).
  split; assumption.
Defined.

(** X12: the error branch acts in a fixed order: it stores Disconnected,
    and only when it loaded Connected, before it calls the disconnect hook;
    it calls the hook before it spawns the reconnect goroutine; and it
    closes the connection last; each of these at most once. *)
Theorem error_branch_order
    (handleMessage : Message -> M (option error))
    (c : Client) (err : SockReadErr) (rest : list (Message + SockReadErr)) :
  List.filter isErrorBranchStep
              (trace (reader handleMessage (inr err :: rest) c)) =
  (if bool_decide (status c = StatConnected)
   then [EvStoreStatus StatDisconnected]
   else []) ++
  [EvOnDisconnected; EvGoReconnect; EvClose].
Proof.
  rewrite reader_read_error. unfold trace, readErrorTrace. cbn [snd].
  destruct (IsAbnormalCloseErr err), (bool_decide (status c = StatConnected));
    reflexivity.
Qed.

(** X6: connect takes [sessionLock] for writing once per restoration
    request and only after that request; a connect that issued no
    restoration request never writes the session and leaves it as it
    was. *)
Theorem connect_writes_session_after_request (env : Env) (c : Client) :
  count isSessionWriteLock (trace (connect env c)) =
    count isRestoration (trace (connect env c)) /\
  precededBy isRestoration isSessionWriteLock false (trace (connect env c))
    = true /\
  (count isRestoration (trace (connect env c)) = 0 ->
   session (final (connect env c)) = session c).
Proof.
  by_connect_path env c; cbn; repeat split; auto; discriminate.
Qed.

Lemma connect_writes_session_after_request_witness :
  session (final (connect envOk freshClient)) = session freshClient.
Proof.
  apply (connect_writes_session_after_request envOk freshClient).
  reflexivity.
Defined.
